(** * Recent memory of Tensorforce: index computations of the two retrievers

    Source: [tensorforce/core/memories/recent.py], class [Recent(Queue)],
    methods [tf_retrieve_timesteps] and [tf_retrieve_episodes].

    Every tensor of the two methods has dtype ['long'], TensorFlow's signed
    64-bit integer.  A value is a [Z]; additions and subtractions wrap
    around as in [Int64] below.  The variables the methods read
    ([buffer_index], [episode_count], [terminal_indices]) and the constant
    [capacity] belong to the parent class [Queue]; they are the fields of
    the record [Memory].  A TensorFlow op that raises is an [Err]. *)

From Stdlib Require Import ZArith List Lia Bool Permutation.
Import ListNotations.

Open Scope Z_scope.

(** ** Signed 64-bit integers *)

Module Int64.

Definition min_value : Z := - 2 ^ 63.
Definition max_value : Z := 2 ^ 63 - 1.
Definition modulus : Z := 2 ^ 64.

Definition in_range (z : Z) : Prop := min_value <= z <= max_value.

(* Two's complement wrap-around of a mathematical result. *)
Definition wrap (z : Z) : Z := (z - min_value) mod modulus + min_value.

Definition add (a b : Z) : Z := wrap (a + b).
Definition sub (a b : Z) : Z := wrap (a - b).

End Int64.

(** ** Failures of TensorFlow ops and the result of a graph run *)

Inductive tf_error : Type :=
| AssertGreaterEqualFailed   (* tf.debugging.assert_greater_equal *)
| RangeStartAboveLimit       (* tf.range: requires start <= limit when delta > 0 *)
| SliceIndexOutOfBounds      (* tensor[index] *)
| IntegerDivisionByZero.     (* tf.math.mod *)

Inductive result (A : Type) : Type :=
| Ok (a : A)
| Err (e : tf_error).

Arguments Ok {A} a.
Arguments Err {A} e.

Definition is_ok {A : Type} (r : result A) : bool :=
  match r with Ok _ => true | Err _ => false end.

Definition result_bind {A B : Type} (r : result A) (f : A -> result B) : result B :=
  match r with
  | Ok a => f a
  | Err e => Err e
  end.

Fixpoint result_map_list {A B : Type} (f : A -> result B) (xs : list A) : result (list B) :=
  match xs with
  | [] => Ok []
  | x :: xs' =>
      result_bind (f x) (fun y =>
      result_bind (result_map_list f xs') (fun ys => Ok (y :: ys)))
  end.

(** ** The TensorFlow ops the two methods use *)

Definition tf_minimum (x y : Z) : Z := if x <? y then x else y.

(* tf.range(start, limit) with the default delta 1: the op refuses
   start > limit, and otherwise yields start, start+1, ..., limit-1. *)
Definition range_from (start : Z) (len : nat) : list Z :=
  map (fun k => start + Z.of_nat k) (seq 0 len).

Definition tf_range (start limit : Z) : result (list Z) :=
  if limit <? start then Err RangeStartAboveLimit
  else Ok (range_from start (Z.to_nat (limit - start))).

(* tf.math.mod on one element of an integer tensor (FloorMod): the
   truncated remainder, moved by y when its sign differs from y's;
   a zero divisor is an error. *)
Definition tf_floormod (x y : Z) : result Z :=
  if y =? 0 then Err IntegerDivisionByZero
  else
    let trunc_mod := Z.rem x y in
    if negb (trunc_mod =? 0) && negb (Bool.eqb (y <? 0) (trunc_mod <? 0))
    then Ok (trunc_mod + y)
    else Ok trunc_mod.

(* tf.math.mod(x=indices, y=capacity): elementwise, y broadcast. *)
Definition tf_math_mod (xs : list Z) (y : Z) : result (list Z) :=
  result_map_list (fun x => tf_floormod x y) xs.

(* indices - future_horizon: elementwise, the scalar broadcast. *)
Definition tf_subtract_scalar (xs : list Z) (y : Z) : list Z :=
  map (fun x => Int64.sub x y) xs.

(* tensor[index] on a vector with a scalar tensor index: a negative index
   counts from the end, and an index outside the vector is an error. *)
Definition tf_getitem (t : list Z) (index : Z) : result Z :=
  let dim := Z.of_nat (length t) in
  let fwd := if index <? 0 then dim + index else index in
  if (fwd <? 0) || (dim <=? fwd) then Err SliceIndexOutOfBounds
  else match nth_error t (Z.to_nat fwd) with
       | Some v => Ok v
       | None => Err SliceIndexOutOfBounds
       end.

(* tf.where(condition, x, y) on scalars. *)
Definition tf_where (condition : bool) (x y : Z) : Z :=
  if condition then x else y.

(** ** The memory and the graph monad *)

(* The variables of [Queue] that [Recent] reads, and its capacity.
   [V] is the type of a stored value record. *)
Record Memory (V : Type) : Type := mkMemory {
  capacity : Z;
  buffers : list V;
  buffer_index : Z;
  episode_count : Z;
  terminal_indices : list Z
}.

Arguments mkMemory {V}.
Arguments capacity {V}.
Arguments buffers {V}.
Arguments buffer_index {V}.
Arguments episode_count {V}.
Arguments terminal_indices {V}.

(* A graph run reads (and could write) the memory and returns or raises. *)
Definition Graph (V A : Type) : Type := Memory V -> result A * Memory V.

Definition ret {V A : Type} (a : A) : Graph V A := fun m => (Ok a, m).

Definition bind {V A B : Type} (c : Graph V A) (f : A -> Graph V B) : Graph V B :=
  fun m =>
    match c m with
    | (Ok a, m') => f a m'
    | (Err e, m') => (Err e, m')
    end.

Definition lift {V A : Type} (r : result A) : Graph V A := fun m => (r, m).

Definition read {V A : Type} (field : Memory V -> A) : Graph V A :=
  fun m => (Ok (field m), m).

Notation "x <- c ;; k" := (bind c (fun x => k))
  (at level 61, c at next level, right associativity).
Notation "c ;;; k" := (bind c (fun _ => k))
  (at level 61, right associativity).

Definition eval {V A : Type} (c : Graph V A) (m : Memory V) : result A := fst (c m).
Definition exec {V A : Type} (c : Graph V A) (m : Memory V) : Memory V := snd (c m).

(* tf.debugging.assert_greater_equal(x, y) *)
Definition assert_greater_equal {V : Type} (x y : Z) : Graph V unit :=
  if y <=? x then ret tt else lift (Err AssertGreaterEqualFailed).

(** ** The two retrievers *)

Definition tf_retrieve_timesteps {V : Type} (n past_horizon future_horizon : Z)
  : Graph V (list Z) :=
  let one := 1 in
  capacity <- read capacity ;;
  (* Check whether memory contains at least one valid timestep *)
  buffer_index0 <- read buffer_index ;;
  let num_timesteps :=
    Int64.sub (Int64.sub (tf_minimum buffer_index0 capacity) past_horizon)
              future_horizon in
  assert_greater_equal num_timesteps one ;;;
  (* Most recent timestep indices range *)
  buffer_index1 <- read buffer_index ;;
  indices <- lift (tf_range (Int64.sub buffer_index1 n) buffer_index1) ;;
  lift (tf_math_mod (tf_subtract_scalar indices future_horizon) capacity).

Definition tf_retrieve_episodes {V : Type} (n : Z) : Graph V (list Z) :=
  let zero := 0 in
  let one := 1 in
  capacity <- read capacity ;;
  (* Check whether memory contains at least one episode *)
  episode_count0 <- read episode_count ;;
  assert_greater_equal episode_count0 one ;;;
  (* Get start and limit index for most recent n episodes *)
  terminal_indices0 <- read terminal_indices ;;
  episode_count1 <- read episode_count ;;
  start <- lift (tf_getitem terminal_indices0 (Int64.sub episode_count1 n)) ;;
  limit <- lift (tf_getitem terminal_indices0 episode_count1) ;;
  (* Increment terminal of previous episode *)
  let start := Int64.add start one in
  let limit := Int64.add limit one in
  (* Correct limit index if smaller than start index *)
  let limit := Int64.add limit (tf_where (limit <? start) capacity zero) in
  (* Most recent episode indices range *)
  indices <- lift (tf_range start limit) ;;
  lift (tf_math_mod indices capacity).

(** ** What the specification calls things *)

(* physical_slot(logical_index): true modulo with respect to capacity. *)
Definition physical_slot (capacity logical_index : Z) : Z :=
  logical_index mod capacity.

(* available = min(buffer_index, capacity) - past_horizon - future_horizon *)
Definition available {V : Type} (m : Memory V) (past_horizon future_horizon : Z) : Z :=
  Z.min (buffer_index m) (capacity m) - past_horizon - future_horizon.

(* The logical range [buffer_index - n, buffer_index) shifted backward by
   future_horizon, oldest first. *)
Definition logical_timesteps {V : Type} (m : Memory V) (n future_horizon : Z) : list Z :=
  range_from (buffer_index m - n - future_horizon) (Z.to_nat n).

(* The valid data window: the most recent min(buffer_index, capacity) writes. *)
Definition in_valid_window {V : Type} (m : Memory V) (logical_index : Z) : Prop :=
  buffer_index m - Z.min (buffer_index m) (capacity m) <= logical_index < buffer_index m.

(* Capacity and write cursor are 64-bit values, the capacity positive and
   the cursor non-negative. *)
Definition memory_ok {V : Type} (m : Memory V) : Prop :=
  0 < capacity m <= Int64.max_value /\ 0 <= buffer_index m <= Int64.max_value.

(* The inputs of a timestep query: n > 0, horizons >= 0, and small enough
   that no 64-bit subtraction of the query overflows. *)
Definition timestep_query_ok (n past_horizon future_horizon : Z) : Prop :=
  0 < n /\ 0 <= past_horizon /\ 0 <= future_horizon /\
  past_horizon + future_horizon <= Int64.max_value /\
  n + future_horizon <= Int64.max_value.

(* An episode query that stays inside the terminal index table (no index
   below 0, so none is taken from the table's end): n > 0 episodes, at most
   episode_count, the two entries read and 64-bit room above them. *)
Definition episode_query_ok {V : Type} (m : Memory V) (n t_prev t_last : Z) : Prop :=
  0 < n <= episode_count m /\ episode_count m <= Int64.max_value /\
  nth_error (terminal_indices m) (Z.to_nat (episode_count m - n)) = Some t_prev /\
  nth_error (terminal_indices m) (Z.to_nat (episode_count m)) = Some t_last /\
  Int64.min_value <= t_prev < Int64.max_value /\
  Int64.min_value <= t_last /\ t_last + capacity m < Int64.max_value.

(* limit after the wraparound correction *)
Definition corrected_limit (capacity start limit : Z) : Z :=
  if limit <? start then limit + capacity else limit.

(* A memory without stored records, for the tests. *)
Definition memory_of (cap bi ec : Z) (ti : list Z) : Memory unit :=
  mkMemory cap [] bi ec ti.

Ltac int64_bounds :=
  unfold memory_ok, timestep_query_ok, available, Int64.in_range,
    Int64.max_value, Int64.min_value in *.

(** ** Lemmas on 64-bit arithmetic *)

Lemma int64_wrap_in_range (z : Z) : Int64.in_range (Int64.wrap z).
Proof.
  unfold Int64.in_range, Int64.wrap, Int64.min_value, Int64.max_value,
    Int64.modulus.
  pose proof (Z.mod_pos_bound (z - - 2 ^ 63) (2 ^ 64) ltac:(lia)). lia.
Qed.

Lemma int64_wrap_small (z : Z) : Int64.in_range z -> Int64.wrap z = z.
Proof.
  unfold Int64.in_range, Int64.wrap, Int64.min_value, Int64.max_value,
    Int64.modulus. intros Hz.
  rewrite Z.mod_small; lia.
Qed.

Lemma int64_add_exact (a b : Z) :
  Int64.in_range (a + b) -> Int64.add a b = a + b.
Proof. apply int64_wrap_small. Qed.

Lemma int64_sub_exact (a b : Z) :
  Int64.in_range (a - b) -> Int64.sub a b = a - b.
Proof. apply int64_wrap_small. Qed.

(** ** Tests on concrete memories *)

Example wraparound_example :
  eval (tf_retrieve_timesteps 3 0 0) (memory_of 8 20 0 [0]) = Ok [1; 2; 3].
Proof. reflexivity. Qed.

Example floormod_negative : tf_floormod (-1) 8 = Ok 7.
Proof. reflexivity. Qed.

Example no_episode_example :
  eval (tf_retrieve_episodes 1) (memory_of 8 20 0 [0]) = Err AssertGreaterEqualFailed.
Proof. reflexivity. Qed.

(* Horizons near the top of the 64-bit range make the subtractions of the
   gate wrap around; [timestep_query_ok] keeps queries away from there. *)
Example gate_wraps_for_huge_horizons :
  eval (tf_retrieve_timesteps 1 Int64.max_value Int64.max_value) (memory_of 8 20 0 [0])
  = Ok [4].
Proof. reflexivity. Qed.

(** ** Lemmas on the ops *)

Lemma tf_minimum_min (x y : Z) : tf_minimum x y = Z.min x y.
Proof. unfold tf_minimum. destruct (Z.ltb_spec x y); lia. Qed.

Lemma tf_floormod_mod (x y : Z) : y <> 0 -> tf_floormod x y = Ok (x mod y).
Proof.
  intros Hy. unfold tf_floormod.
  destruct (Z.eqb_spec y 0) as [|_]; [contradiction|].
  pose proof (Z.quot_rem' x y) as Hqr.
  pose proof (Z.rem_bound_abs x y Hy) as Habs.
  pose proof (Z.rem_sign_mul x y Hy) as Hsign.
  set (r := Z.rem x y) in *. set (q := Z.quot x y) in *.
  destruct (Z.eqb_spec r 0) as [Hr|Hr]; simpl.
  - f_equal. apply (Z.mod_unique x y q r); lia.
  - destruct (Z.ltb_spec y 0), (Z.ltb_spec r 0); simpl; f_equal.
    + apply (Z.mod_unique x y q r); lia.
    + apply (Z.mod_unique x y (q - 1) (r + y)); lia.
    + apply (Z.mod_unique x y (q - 1) (r + y)); lia.
    + apply (Z.mod_unique x y q r); lia.
Qed.

Lemma tf_floormod_physical_slot (cap i : Z) :
  0 < cap -> tf_floormod i cap = Ok (physical_slot cap i).
Proof. intros. apply tf_floormod_mod. lia. Qed.

Lemma tf_math_mod_map (xs : list Z) (cap : Z) :
  0 < cap -> tf_math_mod xs cap = Ok (map (physical_slot cap) xs).
Proof.
  intros Hc. unfold tf_math_mod.
  induction xs as [|x xs IH]; simpl; [reflexivity|].
  rewrite tf_floormod_physical_slot by assumption. simpl.
  rewrite IH. reflexivity.
Qed.

Lemma length_range_from (start : Z) (len : nat) : length (range_from start len) = len.
Proof. unfold range_from. rewrite length_map, length_seq. reflexivity. Qed.

Lemma In_range_from (start : Z) (len : nat) (x : Z) :
  In x (range_from start len) <-> start <= x < start + Z.of_nat len.
Proof.
  unfold range_from. rewrite in_map_iff. split.
  - intros (k & <- & Hk). apply in_seq in Hk. lia.
  - intros Hx. exists (Z.to_nat (x - start)). split; [lia|].
    apply in_seq. lia.
Qed.

Lemma nth_error_range_from (start : Z) (len k : nat) :
  (k < len)%nat -> nth_error (range_from start len) k = Some (start + Z.of_nat k).
Proof.
  intros Hk. unfold range_from.
  rewrite nth_error_map, nth_error_seq.
  destruct (Nat.ltb_spec k len); [reflexivity|lia].
Qed.

Lemma range_from_subtract (start y : Z) (len : nat) :
  Int64.in_range (start - y) ->
  Int64.in_range (start + Z.of_nat len - y) ->
  tf_subtract_scalar (range_from start len) y = range_from (start - y) len.
Proof.
  intros Hlo Hhi. unfold tf_subtract_scalar, range_from.
  rewrite map_map. apply map_ext_in. intros k Hk. apply in_seq in Hk.
  rewrite int64_sub_exact; [lia|].
  unfold Int64.in_range in *. lia.
Qed.

Lemma tf_getitem_nth (t : list Z) (index v : Z) :
  0 <= index -> nth_error t (Z.to_nat index) = Some v -> tf_getitem t index = Ok v.
Proof.
  intros Hi Hnth. unfold tf_getitem.
  assert (Hlt : (Z.to_nat index < length t)%nat).
  { apply nth_error_Some. rewrite Hnth. discriminate. }
  destruct (Z.ltb_spec index 0); [lia|].
  destruct (Z.ltb_spec index 0), (Z.leb_spec (Z.of_nat (length t)) index);
    simpl; try lia.
  rewrite Hnth. reflexivity.
Qed.

(** ** The retrievers as functions of the memory *)

Lemma tf_retrieve_timesteps_run {V : Type} (m : Memory V) (n ph fh : Z) :
  tf_retrieve_timesteps n ph fh m =
  (if 1 <=? Int64.sub (Int64.sub (tf_minimum (buffer_index m) (capacity m)) ph) fh
   then result_bind (tf_range (Int64.sub (buffer_index m) n) (buffer_index m))
          (fun indices => tf_math_mod (tf_subtract_scalar indices fh) (capacity m))
   else Err AssertGreaterEqualFailed,
   m).
Proof.
  unfold tf_retrieve_timesteps, bind, read, lift, assert_greater_equal, ret.
  destruct (1 <=? _); [|reflexivity].
  destruct (tf_range _ _); reflexivity.
Qed.

Lemma tf_retrieve_episodes_run {V : Type} (m : Memory V) (n : Z) :
  tf_retrieve_episodes n m =
  (if 1 <=? episode_count m
   then result_bind (tf_getitem (terminal_indices m) (Int64.sub (episode_count m) n))
          (fun t_start =>
           result_bind (tf_getitem (terminal_indices m) (episode_count m))
             (fun t_limit =>
              let start := Int64.add t_start 1 in
              let limit := Int64.add t_limit 1 in
              let limit := Int64.add limit (tf_where (limit <? start) (capacity m) 0) in
              result_bind (tf_range start limit)
                (fun indices => tf_math_mod indices (capacity m))))
   else Err AssertGreaterEqualFailed,
   m).
Proof.
  unfold tf_retrieve_episodes, bind, read, lift, assert_greater_equal, ret.
  destruct (1 <=? _); [|reflexivity].
  destruct (tf_getitem _ (Int64.sub _ _)); [|reflexivity].
  destruct (tf_getitem _ _); [|reflexivity].
  cbv zeta. unfold result_bind at 1 2.
  destruct (tf_range _ _); reflexivity.
Qed.

(* Within the 64-bit range the timestep retriever is the gate followed by
   the slots of the shifted logical range. *)
Lemma tf_retrieve_timesteps_closed {V : Type} (m : Memory V) (n ph fh : Z) :
  memory_ok m -> timestep_query_ok n ph fh ->
  eval (tf_retrieve_timesteps n ph fh) m =
  if 1 <=? available m ph fh
  then Ok (map (physical_slot (capacity m)) (logical_timesteps m n fh))
  else Err AssertGreaterEqualFailed.
Proof.
  intros Hm Hq. unfold eval. rewrite tf_retrieve_timesteps_run. cbn [fst].
  rewrite tf_minimum_min.
  rewrite (int64_sub_exact (Z.min _ _) ph) by (int64_bounds; lia).
  rewrite (int64_sub_exact _ fh) by (int64_bounds; lia).
  fold (available m ph fh).
  destruct (1 <=? available m ph fh); [|reflexivity].
  rewrite int64_sub_exact by (int64_bounds; lia).
  unfold tf_range.
  destruct (Z.ltb_spec (buffer_index m) (buffer_index m - n));
    [int64_bounds; lia|].
  cbn [result_bind].
  replace (buffer_index m - (buffer_index m - n)) with n by lia.
  rewrite range_from_subtract by (int64_bounds; lia).
  rewrite tf_math_mod_map by (int64_bounds; lia).
  reflexivity.
Qed.

(* Within the 64-bit range and inside the table the episode retriever is
   the range [start, limit) after the wraparound correction. *)
Lemma tf_retrieve_episodes_closed {V : Type} (m : Memory V) (n t_prev t_last : Z) :
  0 < capacity m -> episode_query_ok m n t_prev t_last ->
  eval (tf_retrieve_episodes n) m =
  let start := t_prev + 1 in
  let limit := corrected_limit (capacity m) start (t_last + 1) in
  if limit <? start then Err RangeStartAboveLimit
  else Ok (map (physical_slot (capacity m))
             (range_from start (Z.to_nat (limit - start)))).
Proof.
  intros Hc (Hn & Hec & Hprev & Hlast & Hp & Hl & Hroom).
  unfold eval. rewrite tf_retrieve_episodes_run. cbn [fst].
  destruct (Z.leb_spec 1 (episode_count m)); [|lia].
  rewrite int64_sub_exact by (int64_bounds; lia).
  rewrite (tf_getitem_nth _ _ t_prev) by (assumption || lia).
  rewrite (tf_getitem_nth _ _ t_last) by (assumption || lia).
  cbn [result_bind]. cbv zeta.
  rewrite !(int64_add_exact _ 1) by (int64_bounds; lia).
  unfold tf_where, corrected_limit.
  destruct (Z.ltb_spec (t_last + 1) (t_prev + 1)).
  - rewrite int64_add_exact by (int64_bounds; lia).
    unfold tf_range. destruct (_ <? _); [reflexivity|].
    cbn [result_bind]. apply tf_math_mod_map. exact Hc.
  - rewrite int64_add_exact by (int64_bounds; lia). rewrite Z.add_0_r.
    unfold tf_range. destruct (_ <? _); [reflexivity|].
    cbn [result_bind]. apply tf_math_mod_map. exact Hc.
Qed.

(** ** The claims *)

(** C1. With a well-formed memory and query ([n > 0], horizons [>= 0],
    all within 64 bits), [retrieve_timesteps] fails exactly when
    [min(buffer_index, capacity) - past_horizon - future_horizon < 1];
    otherwise it returns exactly [n] slots, the slot at position [k] being
    the logical index [buffer_index - n + k], shifted backward by
    [future_horizon] and taken modulo [capacity]: the shifted logical
    range, oldest first. *)
Theorem retrieve_timesteps_gate_and_range {V : Type} (m : Memory V) (n ph fh : Z) :
  memory_ok m -> timestep_query_ok n ph fh ->
  (is_ok (eval (tf_retrieve_timesteps n ph fh) m) = false <->
   Z.min (buffer_index m) (capacity m) - ph - fh < 1) /\
  (1 <= Z.min (buffer_index m) (capacity m) - ph - fh ->
   exists slots,
     eval (tf_retrieve_timesteps n ph fh) m = Ok slots /\
     Z.of_nat (length slots) = n /\
     slots = map (physical_slot (capacity m)) (logical_timesteps m n fh) /\
     forall k, 0 <= k < n ->
       nth_error slots (Z.to_nat k) =
       Some (((buffer_index m - n + k) - fh) mod capacity m)).
Proof.
  intros Hm Hq. rewrite (tf_retrieve_timesteps_closed m n ph fh Hm Hq).
  fold (available m ph fh).
  destruct (Z.leb_spec 1 (available m ph fh)) as [Ha|Ha]; cbn [is_ok].
  - split; [split; [discriminate|lia]|]. intros _.
    eexists. split; [reflexivity|].
    unfold logical_timesteps.
    split; [rewrite length_map, length_range_from; int64_bounds; lia|].
    split; [reflexivity|].
    intros k Hk. rewrite nth_error_map, nth_error_range_from by lia.
    cbn [option_map]. unfold physical_slot. do 2 f_equal. lia.
  - split; [split; [intros _; exact Ha|reflexivity]|]. lia.
Qed.

Lemma retrieve_timesteps_gate_and_range_witness :
  memory_ok (memory_of 8 20 0 [0]) /\ timestep_query_ok 3 0 0 /\
  1 <= Z.min 20 8 - 0 - 0 /\
  exists slots,
    eval (tf_retrieve_timesteps 3 0 0) (memory_of 8 20 0 [0]) = Ok slots /\
    Z.of_nat (length slots) = 3.
Proof.
  assert (Hm : memory_ok (memory_of 8 20 0 [0])) by (int64_bounds; simpl; lia).
  assert (Hq : timestep_query_ok 3 0 0) by (int64_bounds; lia).
  assert (Ha : 1 <= Z.min 20 8 - 0 - 0) by lia.
  split; [exact Hm|]. split; [exact Hq|]. split; [exact Ha|].
  destruct (retrieve_timesteps_gate_and_range (memory_of 8 20 0 [0]) 3 0 0 Hm Hq)
    as [_ Hok].
  destruct (Hok Ha) as (slots & Hs & Hlen & _).
  exists slots. split; assumption.
Defined.

(** C2. For [n > 0], [episode_count >= 1] and a query that stays inside
    the terminal index table, [retrieve_episodes(n)] takes
    [start = terminal_index_table[episode_count - n] + 1] and
    [limit = terminal_index_table[episode_count] + 1], adds [capacity] to
    [limit] when [limit < start] (which leaves [limit] as it is when the
    two entries are in order), and returns the logical indices of
    [[start, limit)], each taken modulo [capacity], oldest first. *)
Theorem retrieve_episodes_range {V : Type} (m : Memory V) (n t_prev t_last : Z) :
  0 < capacity m -> 1 <= episode_count m ->
  episode_query_ok m n t_prev t_last ->
  let start := t_prev + 1 in
  let limit := t_last + 1 in
  let limit' := if limit <? start then limit + capacity m else limit in
  start <= limit' ->
  (t_prev <= t_last -> limit' = limit) /\
  exists slots,
    eval (tf_retrieve_episodes n) m = Ok slots /\
    Z.of_nat (length slots) = limit' - start /\
    forall k, 0 <= k < limit' - start ->
      nth_error slots (Z.to_nat k) = Some ((start + k) mod capacity m).
Proof.
  intros Hc _ Hq start limit limit' Hle.
  split.
  - intros Hord. subst limit' limit start.
    destruct (Z.ltb_spec (t_last + 1) (t_prev + 1)); lia.
  - rewrite (tf_retrieve_episodes_closed m n t_prev t_last Hc Hq).
    cbv zeta. unfold corrected_limit. fold start limit limit'.
    destruct (Z.ltb_spec limit' start); [lia|].
    eexists. split; [reflexivity|].
    split; [rewrite length_map, length_range_from; lia|].
    intros k Hk. rewrite nth_error_map, nth_error_range_from by lia.
    cbn [option_map]. unfold physical_slot. do 2 f_equal. lia.
Qed.

Lemma retrieve_episodes_range_witness :
  exists slots,
    eval (tf_retrieve_episodes 2) (memory_of 8 15 3 [0; 4; 9; 15]) = Ok slots /\
    Z.of_nat (length slots) = 16 - 5.
Proof.
  assert (Hc : 0 < capacity (memory_of 8 15 3 [0; 4; 9; 15])) by reflexivity.
  assert (He : 1 <= episode_count (memory_of 8 15 3 [0; 4; 9; 15]))
    by (simpl; lia).
  assert (Hq : episode_query_ok (memory_of 8 15 3 [0; 4; 9; 15]) 2 4 15).
  { unfold episode_query_ok. int64_bounds. simpl.
    repeat split; try reflexivity; lia. }
  assert (Hle : 4 + 1 <= 15 + 1) by lia.
  destruct (retrieve_episodes_range (memory_of 8 15 3 [0; 4; 9; 15]) 2 4 15
              Hc He Hq Hle) as [_ (slots & Hs & Hlen & _)].
  exists slots. split; assumption.
Defined.

(** C3, as the code has it.  The gate of each retrieval asks for one
    item, not for [n]: [retrieve_timesteps] fails whenever
    [min(buffer_index, capacity) - past_horizon - future_horizon < 1] and
    [retrieve_episodes] fails whenever [episode_count < 1]; and a
    [retrieve_timesteps] that succeeds returns exactly [n] slots, never
    fewer. *)
Theorem retrievals_fail_below_one {V : Type} (m : Memory V) (n ph fh : Z) :
  memory_ok m -> timestep_query_ok n ph fh ->
  (Z.min (buffer_index m) (capacity m) - ph - fh < 1 ->
   eval (tf_retrieve_timesteps n ph fh) m = Err AssertGreaterEqualFailed) /\
  (episode_count m < 1 ->
   eval (tf_retrieve_episodes n) m = Err AssertGreaterEqualFailed) /\
  (forall slots, eval (tf_retrieve_timesteps n ph fh) m = Ok slots ->
   Z.of_nat (length slots) = n).
Proof.
  intros Hm Hq. rewrite (tf_retrieve_timesteps_closed m n ph fh Hm Hq).
  fold (available m ph fh). repeat split.
  - intros Ha. destruct (Z.leb_spec 1 (available m ph fh)); [lia|reflexivity].
  - intros He. unfold eval. rewrite tf_retrieve_episodes_run. cbn [fst].
    destruct (Z.leb_spec 1 (episode_count m)); [lia|reflexivity].
  - intros slots. destruct (1 <=? _); [|discriminate].
    intros [= <-]. unfold logical_timesteps.
    rewrite length_map, length_range_from. int64_bounds. lia.
Qed.

Lemma retrievals_fail_below_one_witness :
  memory_ok (memory_of 8 2 0 [7; 0; 0]) /\ timestep_query_ok 3 1 1 /\
  eval (tf_retrieve_timesteps 3 1 1) (memory_of 8 2 0 [7; 0; 0])
    = Err AssertGreaterEqualFailed /\
  eval (tf_retrieve_episodes 3) (memory_of 8 2 0 [7; 0; 0])
    = Err AssertGreaterEqualFailed.
Proof.
  assert (Hm : memory_ok (memory_of 8 2 0 [7; 0; 0])) by (int64_bounds; simpl; lia).
  assert (Hq : timestep_query_ok 3 1 1) by (int64_bounds; lia).
  split; [exact Hm|]. split; [exact Hq|].
  destruct (retrievals_fail_below_one (memory_of 8 2 0 [7; 0; 0]) 3 1 1 Hm Hq)
    as (Ht & He & _).
  split; [apply Ht|apply He]; simpl; lia.
Defined.

(** C3 as stated fails: with two timesteps written and no horizon,
    [retrieve_timesteps(3, 0, 0)] has [2 < 3] qualifying timesteps and
    succeeds; with one completed episode, [retrieve_episodes(2)] succeeds,
    the table index [-1] being taken from the table's end. *)
Lemma retrievals_succeed_below_n :
  Z.min 2 8 - 0 - 0 < 3 /\
  eval (tf_retrieve_timesteps 3 0 0) (memory_of 8 2 0 [7; 0; 0]) = Ok [7; 0; 1] /\
  episode_count (memory_of 8 5 1 [0; 4; 0]) < 2 /\
  eval (tf_retrieve_episodes 2) (memory_of 8 5 1 [0; 4; 0]) = Ok [1; 2; 3; 4].
Proof. repeat split; reflexivity. Qed.

(** C4, as the code has it.  When [retrieve_timesteps] succeeds, its slots
    are those of the shifted logical range, and every logical index [L] of
    it has [L + future_horizon < buffer_index]; the other bound,
    [L - past_horizon >= max(0, buffer_index - capacity)], holds for every
    returned index exactly when
    [n <= min(buffer_index, capacity) - past_horizon - future_horizon],
    which the gate does not ask for. *)
Theorem retrieve_timesteps_horizon_bounds {V : Type}
    (m : Memory V) (n ph fh : Z) (slots : list Z) :
  memory_ok m -> timestep_query_ok n ph fh ->
  eval (tf_retrieve_timesteps n ph fh) m = Ok slots ->
  slots = map (physical_slot (capacity m)) (logical_timesteps m n fh) /\
  Forall (fun L => L + fh < buffer_index m) (logical_timesteps m n fh) /\
  (Forall (fun L => Z.max 0 (buffer_index m - capacity m) <= L - ph)
          (logical_timesteps m n fh)
   <-> n <= Z.min (buffer_index m) (capacity m) - ph - fh).
Proof.
  intros Hm Hq. rewrite (tf_retrieve_timesteps_closed m n ph fh Hm Hq).
  destruct (1 <=? _); [|discriminate]. intros [= <-].
  split; [reflexivity|]. unfold logical_timesteps.
  rewrite !Forall_forall. split; [|split].
  - intros L HL. apply In_range_from in HL. int64_bounds. lia.
  - intros H.
    specialize (H (buffer_index m - n - fh)).
    rewrite In_range_from in H. int64_bounds. lia.
  - intros H L HL. apply In_range_from in HL. int64_bounds. lia.
Qed.

Lemma retrieve_timesteps_horizon_bounds_witness :
  memory_ok (memory_of 8 20 0 [7; 0; 0]) /\ timestep_query_ok 3 2 1 /\
  eval (tf_retrieve_timesteps 3 2 1) (memory_of 8 20 0 [7; 0; 0]) = Ok [0; 1; 2] /\
  Forall (fun L => L + 1 < 20) (logical_timesteps (memory_of 8 20 0 [7; 0; 0]) 3 1).
Proof.
  assert (Hm : memory_ok (memory_of 8 20 0 [7; 0; 0])) by (int64_bounds; simpl; lia).
  assert (Hq : timestep_query_ok 3 2 1) by (int64_bounds; lia).
  assert (He : eval (tf_retrieve_timesteps 3 2 1) (memory_of 8 20 0 [7; 0; 0])
               = Ok [0; 1; 2]) by reflexivity.
  split; [exact Hm|]. split; [exact Hq|]. split; [exact He|].
  exact (proj1 (proj2 (retrieve_timesteps_horizon_bounds
                         (memory_of 8 20 0 [7; 0; 0]) 3 2 1 [0; 1; 2] Hm Hq He))).
Defined.

(** C4 as stated fails: with two timesteps written, [retrieve_timesteps(3, 0, 0)]
    succeeds and its oldest slot, 7, stands for the logical index [-1],
    which has no write behind it. *)
Lemma retrieve_timesteps_before_first_write :
  eval (tf_retrieve_timesteps 3 0 0) (memory_of 8 2 0 [7; 0; 0])
    = Ok (map (physical_slot 8) [-1; 0; 1]) /\
  logical_timesteps (memory_of 8 2 0 [7; 0; 0]) 3 0 = [-1; 0; 1] /\
  ~ (-1 - 0 >= Z.max 0 (2 - 8) /\ -1 + 0 < 2).
Proof.
  split; [reflexivity|]. split; [reflexivity|]. simpl. lia.
Qed.

(** C5, as the code has it.  Every logical index behind a slot of a
    successful [retrieve_timesteps] is below [buffer_index], and all of
    them lie in the valid data window
    [[buffer_index - min(buffer_index, capacity), buffer_index)] exactly
    when [n + future_horizon <= min(buffer_index, capacity)].  The logical
    indices behind the slots of a successful [retrieve_episodes] that
    stays inside the table are those of [[start, limit)], and all of them
    lie in the valid data window exactly when the range is empty or
    [buffer_index - min(buffer_index, capacity) <= start] and
    [limit <= buffer_index]. *)
Theorem retrieved_slots_valid_window {V : Type} (m : Memory V) (n : Z) :
  memory_ok m ->
  (forall ph fh slots,
     timestep_query_ok n ph fh ->
     eval (tf_retrieve_timesteps n ph fh) m = Ok slots ->
     slots = map (physical_slot (capacity m)) (logical_timesteps m n fh) /\
     Forall (fun L => L < buffer_index m) (logical_timesteps m n fh) /\
     (Forall (in_valid_window m) (logical_timesteps m n fh)
      <-> n + fh <= Z.min (buffer_index m) (capacity m))) /\
  (forall t_prev t_last slots,
     episode_query_ok m n t_prev t_last ->
     eval (tf_retrieve_episodes n) m = Ok slots ->
     let start := t_prev + 1 in
     let limit := corrected_limit (capacity m) start (t_last + 1) in
     let logical := range_from start (Z.to_nat (limit - start)) in
     slots = map (physical_slot (capacity m)) logical /\
     (Forall (in_valid_window m) logical
      <-> limit = start \/
          (buffer_index m - Z.min (buffer_index m) (capacity m) <= start /\
           limit <= buffer_index m))).
Proof.
  intros Hm. split.
  - intros ph fh slots Hq.
    rewrite (tf_retrieve_timesteps_closed m n ph fh Hm Hq).
    destruct (1 <=? _); [|discriminate]. intros [= <-].
    split; [reflexivity|]. unfold logical_timesteps, in_valid_window.
    rewrite !Forall_forall. split; [|split].
    + intros L HL. apply In_range_from in HL. int64_bounds. lia.
    + intros H. specialize (H (buffer_index m - n - fh)).
      rewrite In_range_from in H. int64_bounds. lia.
    + intros H L HL. apply In_range_from in HL. int64_bounds. lia.
  - intros t_prev t_last slots Hq.
    assert (Hc : 0 < capacity m) by (int64_bounds; lia).
    rewrite (tf_retrieve_episodes_closed m n t_prev t_last Hc Hq).
    cbv zeta.
    set (start := t_prev + 1).
    set (limit := corrected_limit (capacity m) start (t_last + 1)).
    destruct (Z.ltb_spec limit start) as [|Hle]; [discriminate|].
    intros [= <-]. split; [reflexivity|].
    unfold in_valid_window. rewrite Forall_forall. split.
    + intros H.
      destruct (Z.eq_dec limit start) as [|Hne]; [left; assumption|right].
      pose proof (H start) as H1. pose proof (H (limit - 1)) as H2.
      rewrite In_range_from in H1, H2. lia.
    + intros H L HL. apply In_range_from in HL. lia.
Qed.

Lemma retrieved_slots_valid_window_witness :
  memory_ok (memory_of 8 16 3 [0; 4; 9; 15]) /\
  timestep_query_ok 3 0 1 /\
  eval (tf_retrieve_timesteps 3 0 1) (memory_of 8 16 3 [0; 4; 9; 15]) = Ok [4; 5; 6] /\
  Forall (fun L => L < 16) (logical_timesteps (memory_of 8 16 3 [0; 4; 9; 15]) 3 1) /\
  episode_query_ok (memory_of 8 16 3 [0; 4; 9; 15]) 1 9 15 /\
  eval (tf_retrieve_episodes 1) (memory_of 8 16 3 [0; 4; 9; 15])
    = Ok [2; 3; 4; 5; 6; 7] /\
  [2; 3; 4; 5; 6; 7] = map (physical_slot 8) (range_from 10 6).
Proof.
  assert (Hm : memory_ok (memory_of 8 16 3 [0; 4; 9; 15])) by (int64_bounds; simpl; lia).
  assert (Hq : timestep_query_ok 3 0 1) by (int64_bounds; lia).
  assert (Ht : eval (tf_retrieve_timesteps 3 0 1) (memory_of 8 16 3 [0; 4; 9; 15])
               = Ok [4; 5; 6]) by reflexivity.
  assert (Hqe : episode_query_ok (memory_of 8 16 3 [0; 4; 9; 15]) 1 9 15).
  { unfold episode_query_ok. int64_bounds. simpl.
    repeat split; try reflexivity; lia. }
  assert (He : eval (tf_retrieve_episodes 1) (memory_of 8 16 3 [0; 4; 9; 15])
               = Ok [2; 3; 4; 5; 6; 7]) by reflexivity.
  destruct (retrieved_slots_valid_window (memory_of 8 16 3 [0; 4; 9; 15]) 1 Hm)
    as [_ Hepi].
  destruct (retrieved_slots_valid_window (memory_of 8 16 3 [0; 4; 9; 15]) 3 Hm)
    as [Htime _].
  split; [exact Hm|]. split; [exact Hq|]. split; [exact Ht|].
  split; [exact (proj1 (proj2 (Htime 0 1 [4; 5; 6] Hq Ht)))|].
  split; [exact Hqe|]. split; [exact He|].
  destruct (Hepi 9 15 [2; 3; 4; 5; 6; 7] Hqe He) as [Hslots _].
  exact Hslots.
Defined.

(** C5 as stated fails.  With two timesteps written,
    [retrieve_timesteps(3, 0, 0)] returns slot 7 for the logical index
    [-1], below the valid data window [[0, 2)].  With the terminal of the
    third episode recorded as 15 and the cursor at 15,
    [retrieve_episodes(1)] returns slot 7 for the logical index 15, which
    is not below the cursor. *)
Lemma retrieved_slots_outside_window :
  (eval (tf_retrieve_timesteps 3 0 0) (memory_of 8 2 0 [7; 0; 0])
     = Ok (map (physical_slot 8) [-1; 0; 1]) /\
   logical_timesteps (memory_of 8 2 0 [7; 0; 0]) 3 0 = [-1; 0; 1] /\
   ~ (2 - Z.min 2 8 <= -1 < 2)) /\
  (eval (tf_retrieve_episodes 1) (memory_of 8 15 3 [0; 4; 9; 15])
     = Ok (map (physical_slot 8) [10; 11; 12; 13; 14; 15]) /\
   ~ (15 - Z.min 15 8 <= 15 < 15)).
Proof.
  split; (split; [reflexivity|]).
  - split; [reflexivity|]. lia.
  - lia.
Qed.

(** C6. With the terminals of episodes 1, 2, 3 recorded in the terminal
    index table as 4, 9, 15 and [episode_count = 3], [retrieve_episodes(1)]
    returns the slots of the logical range [[10, 16)], six of them: the
    timesteps after episode 2's terminal up to and including episode 3's. *)
Theorem retrieve_episodes_boundaries_example {V : Type} (m : Memory V) :
  0 < capacity m ->
  episode_count m = 3 ->
  nth_error (terminal_indices m) 1 = Some 4 ->
  nth_error (terminal_indices m) 2 = Some 9 ->
  nth_error (terminal_indices m) 3 = Some 15 ->
  eval (tf_retrieve_episodes 1) m =
    Ok (map (physical_slot (capacity m)) [10; 11; 12; 13; 14; 15]) /\
  length (map (physical_slot (capacity m)) [10; 11; 12; 13; 14; 15]) = 6%nat.
Proof.
  intros Hc Hec _ H2 H3. split; [|reflexivity].
  unfold eval. rewrite tf_retrieve_episodes_run. cbn [fst]. rewrite Hec.
  change (1 <=? 3) with true. change (Int64.sub 3 1) with 2. cbv iota.
  rewrite (tf_getitem_nth _ 2 9) by (assumption || lia).
  rewrite (tf_getitem_nth _ 3 15) by (assumption || lia).
  cbn [result_bind]. cbv zeta.
  change (Int64.add 9 1) with 10. change (Int64.add 15 1) with 16.
  change (16 <? 10) with false. cbn [tf_where].
  change (Int64.add 16 0) with 16.
  change (tf_range 10 16) with (Ok [10; 11; 12; 13; 14; 15]).
  cbn [result_bind]. apply tf_math_mod_map. exact Hc.
Qed.

Lemma retrieve_episodes_boundaries_example_witness :
  eval (tf_retrieve_episodes 1) (memory_of 8 15 3 [0; 4; 9; 15]) =
    Ok [2; 3; 4; 5; 6; 7].
Proof.
  exact (proj1 (retrieve_episodes_boundaries_example
                  (memory_of 8 15 3 [0; 4; 9; 15])
                  eq_refl eq_refl eq_refl eq_refl eq_refl)).
Defined.

(** C7. The logical-to-physical mapping of the code, [tf.math.mod] with
    divisor [capacity], is true modulo: for every capacity [C > 0] and
    every integer [i], negative ones included, the op succeeds, its value
    lies in [[0, C)], is congruent to [i] modulo [C], and is the only
    value of that range congruent to [i]. *)
Theorem physical_slot_true_modulo (C i : Z) :
  0 < C ->
  exists s, tf_floormod i C = Ok s /\
            s = physical_slot C i /\
            0 <= s < C /\
            (C | i - s) /\
            (forall r, 0 <= r < C -> (C | i - r) -> r = s).
Proof.
  intros HC. exists (i mod C).
  split; [apply tf_floormod_mod; lia|].
  split; [reflexivity|].
  pose proof (Z.mod_pos_bound i C HC) as Hb.
  split; [exact Hb|]. split.
  - exists (i / C). pose proof (Z.div_mod i C ltac:(lia)). lia.
  - intros r Hr [q Hq].
    apply (Z.mod_unique i C q r); lia.
Qed.

Lemma physical_slot_true_modulo_witness :
  0 < 8 /\
  exists s, tf_floormod (-3) 8 = Ok s /\
            s = physical_slot 8 (-3) /\
            0 <= s < 8 /\
            (8 | -3 - s) /\
            (forall r, 0 <= r < 8 -> (8 | -3 - r) -> r = s).
Proof.
  split; [lia|]. apply (physical_slot_true_modulo 8 (-3)). lia.
Defined.

(** C8. Both retrievals are pure queries: whatever they return, the memory
    after the call is the memory before it ([buffer_index], [episode_count],
    the terminal index table and the stored records included), so the same
    retrieval called again without an append in between gives the same
    result. *)
Theorem retrievals_are_pure_queries {V : Type} (m : Memory V) (n ph fh : Z) :
  exec (tf_retrieve_timesteps n ph fh) m = m /\
  exec (tf_retrieve_episodes n) m = m /\
  eval (tf_retrieve_timesteps n ph fh) (exec (tf_retrieve_timesteps n ph fh) m) =
    eval (tf_retrieve_timesteps n ph fh) m /\
  eval (tf_retrieve_episodes n) (exec (tf_retrieve_episodes n) m) =
    eval (tf_retrieve_episodes n) m.
Proof.
  assert (Ht : exec (tf_retrieve_timesteps n ph fh) m = m).
  { unfold exec. rewrite tf_retrieve_timesteps_run. reflexivity. }
  assert (He : exec (tf_retrieve_episodes n) m = m).
  { unfold exec. rewrite tf_retrieve_episodes_run. reflexivity. }
  rewrite Ht, He. repeat split; reflexivity.
Qed.

(** C9. [retrieve_timesteps] does not check [n] against the data that is
    there: for every [n > 0], once
    [min(buffer_index, capacity) - past_horizon - future_horizon >= 1] the
    call succeeds with exactly [n] slots, whatever the size of [n]; and
    when [n > capacity] some slot occurs more than once in the result. *)
Theorem retrieve_timesteps_unchecked_n {V : Type} (m : Memory V) (n ph fh : Z) :
  memory_ok m -> timestep_query_ok n ph fh ->
  1 <= Z.min (buffer_index m) (capacity m) - ph - fh ->
  exists slots,
    eval (tf_retrieve_timesteps n ph fh) m = Ok slots /\
    Z.of_nat (length slots) = n /\
    (capacity m < n -> ~ NoDup slots).
Proof.
  intros Hm Hq Ha. rewrite (tf_retrieve_timesteps_closed m n ph fh Hm Hq).
  fold (available m ph fh) in Ha.
  destruct (Z.leb_spec 1 (available m ph fh)); [|lia].
  eexists. split; [reflexivity|].
  assert (Hlen : length (map (physical_slot (capacity m)) (logical_timesteps m n fh))
                 = Z.to_nat n).
  { unfold logical_timesteps. rewrite length_map, length_range_from. reflexivity. }
  split; [rewrite Hlen; int64_bounds; lia|].
  intros Hn Hnd.
  rewrite NoDup_nth_error in Hnd.
  specialize (Hnd 0%nat (Z.to_nat (capacity m))).
  rewrite Hlen in Hnd. unfold logical_timesteps in Hnd.
  rewrite !nth_error_map, !nth_error_range_from in Hnd by (int64_bounds; lia).
  cbn [option_map] in Hnd. unfold physical_slot in Hnd.
  assert (Hc : 0 < capacity m) by (int64_bounds; lia).
  rewrite Z2Nat.id in Hnd by lia.
  replace (buffer_index m - n - fh + capacity m)
    with (buffer_index m - n - fh + 1 * capacity m) in Hnd by lia.
  rewrite Z_mod_plus_full, Z.add_0_r in Hnd.
  specialize (Hnd ltac:(lia) eq_refl). lia.
Qed.

Lemma retrieve_timesteps_unchecked_n_witness :
  memory_ok (memory_of 2 5 0 [0]) /\ timestep_query_ok 3 0 0 /\
  1 <= Z.min 5 2 - 0 - 0 /\
  exists slots,
    eval (tf_retrieve_timesteps 3 0 0) (memory_of 2 5 0 [0]) = Ok slots /\
    Z.of_nat (length slots) = 3 /\
    (2 < 3 -> ~ NoDup slots).
Proof.
  assert (Hm : memory_ok (memory_of 2 5 0 [0])) by (int64_bounds; simpl; lia).
  assert (Hq : timestep_query_ok 3 0 0) by (int64_bounds; lia).
  assert (Ha : 1 <= Z.min 5 2 - 0 - 0) by lia.
  split; [exact Hm|]. split; [exact Hq|]. split; [exact Ha|].
  exact (retrieve_timesteps_unchecked_n (memory_of 2 5 0 [0]) 3 0 0 Hm Hq Ha).
Defined.

(** C10. The slots [retrieve_timesteps] returns do not depend on
    [past_horizon]: two calls on the same memory with the same [n] and
    [future_horizon] that both pass the availability check return the
    same sequence. *)
Theorem retrieve_timesteps_past_horizon_independent {V : Type}
    (m : Memory V) (n p1 p2 fh : Z) (s1 s2 : list Z) :
  eval (tf_retrieve_timesteps n p1 fh) m = Ok s1 ->
  eval (tf_retrieve_timesteps n p2 fh) m = Ok s2 ->
  s1 = s2.
Proof.
  unfold eval. rewrite !tf_retrieve_timesteps_run. cbn [fst].
  destruct (1 <=? _); [|discriminate].
  destruct (1 <=? _); [|discriminate].
  congruence.
Qed.

Lemma retrieve_timesteps_past_horizon_independent_witness :
  eval (tf_retrieve_timesteps 3 0 1) (memory_of 8 20 0 [0]) = Ok [0; 1; 2] /\
  eval (tf_retrieve_timesteps 3 5 1) (memory_of 8 20 0 [0]) = Ok [0; 1; 2] /\
  [0; 1; 2] = [0; 1; 2].
Proof.
  assert (H1 : eval (tf_retrieve_timesteps 3 0 1) (memory_of 8 20 0 [0]) = Ok [0; 1; 2])
    by reflexivity.
  assert (H2 : eval (tf_retrieve_timesteps 3 5 1) (memory_of 8 20 0 [0]) = Ok [0; 1; 2])
    by reflexivity.
  split; [exact H1|]. split; [exact H2|].
  exact (retrieve_timesteps_past_horizon_independent
           (memory_of 8 20 0 [0]) 3 0 5 1 [0; 1; 2] [0; 1; 2] H1 H2).
Defined.

(** ** Further properties of the two retrievers *)

Lemma tf_math_mod_in_bounds (xs slots : list Z) (cap : Z) :
  0 < cap -> tf_math_mod xs cap = Ok slots ->
  Forall (fun s => 0 <= s < cap) slots.
Proof.
  intros Hc. rewrite tf_math_mod_map by assumption. intros [= <-].
  apply Forall_map, Forall_forall. intros x _.
  unfold physical_slot. apply Z.mod_pos_bound. exact Hc.
Qed.

(* Slots of consecutive logical indices are pairwise distinct exactly when
   there are at most capacity of them. *)
Lemma physical_slots_NoDup (cap start : Z) (len : nat) :
  0 < cap ->
  NoDup (map (physical_slot cap) (range_from start len)) <-> Z.of_nat len <= cap.
Proof.
  intros Hc. rewrite NoDup_nth_error, length_map, length_range_from. split.
  - intros H. destruct (Z.le_gt_cases (Z.of_nat len) cap) as [|Hgt]; [assumption|].
    specialize (H 0%nat (Z.to_nat cap) ltac:(lia)).
    rewrite !nth_error_map, !nth_error_range_from in H by lia.
    cbn [option_map] in H. unfold physical_slot in H.
    rewrite Z2Nat.id in H by lia.
    replace (start + cap) with (start + Z.of_nat 0 + 1 * cap) in H by lia.
    rewrite Z_mod_plus_full in H. specialize (H eq_refl). lia.
  - intros Hlen i j Hi Heq.
    rewrite nth_error_map, nth_error_range_from in Heq by assumption.
    destruct (Nat.lt_ge_cases j len) as [Hj|Hj].
    + rewrite nth_error_map, nth_error_range_from in Heq by assumption.
      cbn [option_map] in Heq. injection Heq as Heq. unfold physical_slot in Heq.
      pose proof (Z.div_mod (start + Z.of_nat i) cap ltac:(lia)) as Di.
      pose proof (Z.div_mod (start + Z.of_nat j) cap ltac:(lia)) as Dj.
      rewrite Heq in Di.
      assert (Hq : (start + Z.of_nat i) / cap = (start + Z.of_nat j) / cap) by nia.
      rewrite Hq in Di. lia.
    + rewrite nth_error_map in Heq.
      rewrite (proj2 (nth_error_None (range_from start len) j)) in Heq
        by (rewrite length_range_from; assumption).
      discriminate.
Qed.

(** X1. With a positive capacity, every slot a successful
    [retrieve_timesteps] returns is an index of the buffer, in
    [[0, capacity)], whatever the cursor, [n] and the horizons are. *)
Theorem retrieve_timesteps_slots_in_buffer {V : Type}
    (m : Memory V) (n ph fh : Z) (slots : list Z) :
  0 < capacity m ->
  eval (tf_retrieve_timesteps n ph fh) m = Ok slots ->
  Forall (fun s => 0 <= s < capacity m) slots.
Proof.
  intros Hc. unfold eval. rewrite tf_retrieve_timesteps_run. cbn [fst].
  destruct (1 <=? _); [|discriminate].
  destruct (tf_range _ _) as [indices|]; [|discriminate].
  cbn [result_bind]. apply tf_math_mod_in_bounds. exact Hc.
Qed.

Lemma retrieve_timesteps_slots_in_buffer_witness :
  Forall (fun s => 0 <= s < 8) [7; 0; 1].
Proof.
  exact (retrieve_timesteps_slots_in_buffer (memory_of 8 2 0 [7; 0; 0]) 3 0 0
           [7; 0; 1] eq_refl eq_refl).
Defined.

(** X2. With a positive capacity, every slot a successful
    [retrieve_episodes] returns is an index of the buffer, in
    [[0, capacity)], whatever the terminal index table holds. *)
Theorem retrieve_episodes_slots_in_buffer {V : Type}
    (m : Memory V) (n : Z) (slots : list Z) :
  0 < capacity m ->
  eval (tf_retrieve_episodes n) m = Ok slots ->
  Forall (fun s => 0 <= s < capacity m) slots.
Proof.
  intros Hc. unfold eval. rewrite tf_retrieve_episodes_run. cbn [fst].
  destruct (1 <=? _); [|discriminate].
  destruct (tf_getitem _ _) as [t_start|]; [|discriminate].
  destruct (tf_getitem _ _) as [t_limit|]; [|discriminate].
  cbn [result_bind]. cbv zeta.
  destruct (tf_range _ _) as [indices|]; [|discriminate].
  cbn [result_bind]. apply tf_math_mod_in_bounds. exact Hc.
Qed.

Lemma retrieve_episodes_slots_in_buffer_witness :
  Forall (fun s => 0 <= s < 8) [2; 3; 4; 5; 6; 7].
Proof.
  exact (retrieve_episodes_slots_in_buffer (memory_of 8 15 3 [0; 4; 9; 15]) 1
           [2; 3; 4; 5; 6; 7] eq_refl eq_refl).
Defined.

(** X3. The slots of a successful [retrieve_timesteps] are pairwise
    distinct exactly when [n <= capacity]. *)
Theorem retrieve_timesteps_distinct_iff {V : Type}
    (m : Memory V) (n ph fh : Z) (slots : list Z) :
  memory_ok m -> timestep_query_ok n ph fh ->
  eval (tf_retrieve_timesteps n ph fh) m = Ok slots ->
  NoDup slots <-> n <= capacity m.
Proof.
  intros Hm Hq. rewrite (tf_retrieve_timesteps_closed m n ph fh Hm Hq).
  destruct (1 <=? _); [|discriminate]. intros [= <-].
  unfold logical_timesteps.
  rewrite physical_slots_NoDup by (int64_bounds; lia).
  int64_bounds. lia.
Qed.

Lemma retrieve_timesteps_distinct_iff_witness :
  memory_ok (memory_of 8 20 0 [0]) /\ timestep_query_ok 3 0 0 /\
  eval (tf_retrieve_timesteps 3 0 0) (memory_of 8 20 0 [0]) = Ok [1; 2; 3] /\
  (NoDup [1; 2; 3] <-> 3 <= 8).
Proof.
  assert (Hm : memory_ok (memory_of 8 20 0 [0])) by (int64_bounds; simpl; lia).
  assert (Hq : timestep_query_ok 3 0 0) by (int64_bounds; lia).
  assert (He : eval (tf_retrieve_timesteps 3 0 0) (memory_of 8 20 0 [0]) = Ok [1; 2; 3])
    by reflexivity.
  split; [exact Hm|]. split; [exact Hq|]. split; [exact He|].
  exact (retrieve_timesteps_distinct_iff (memory_of 8 20 0 [0]) 3 0 0 [1; 2; 3] Hm Hq He).
Defined.

(** X4. A successful [retrieve_timesteps] with [n = capacity] returns
    every slot of the buffer exactly once: its result is a permutation of
    [0, 1, ..., capacity - 1]. *)
Theorem retrieve_timesteps_full_cycle {V : Type}
    (m : Memory V) (ph fh : Z) (slots : list Z) :
  memory_ok m -> timestep_query_ok (capacity m) ph fh ->
  eval (tf_retrieve_timesteps (capacity m) ph fh) m = Ok slots ->
  Permutation slots (range_from 0 (Z.to_nat (capacity m))).
Proof.
  intros Hm Hq.
  assert (Hc : 0 < capacity m) by (int64_bounds; lia).
  rewrite (tf_retrieve_timesteps_closed m _ ph fh Hm Hq).
  destruct (1 <=? _); [|discriminate]. intros [= <-].
  unfold logical_timesteps. apply NoDup_Permutation_bis.
  - apply physical_slots_NoDup; lia.
  - rewrite length_map, !length_range_from. lia.
  - intros s Hs. apply in_map_iff in Hs. destruct Hs as (L & <- & _).
    apply In_range_from. unfold physical_slot.
    pose proof (Z.mod_pos_bound L (capacity m) Hc). lia.
Qed.

Lemma retrieve_timesteps_full_cycle_witness :
  memory_ok (memory_of 4 10 0 [0]) /\ timestep_query_ok 4 0 1 /\
  eval (tf_retrieve_timesteps 4 0 1) (memory_of 4 10 0 [0]) = Ok [1; 2; 3; 0] /\
  Permutation [1; 2; 3; 0] [0; 1; 2; 3].
Proof.
  assert (Hm : memory_ok (memory_of 4 10 0 [0])) by (int64_bounds; simpl; lia).
  assert (Hq : timestep_query_ok 4 0 1) by (int64_bounds; lia).
  assert (He : eval (tf_retrieve_timesteps 4 0 1) (memory_of 4 10 0 [0])
               = Ok [1; 2; 3; 0]) by reflexivity.
  split; [exact Hm|]. split; [exact Hq|]. split; [exact He|].
  exact (retrieve_timesteps_full_cycle (memory_of 4 10 0 [0]) 0 1 [1; 2; 3; 0] Hm Hq He).
Defined.

Lemma map_seq_from (f : nat -> Z) (a len : nat) :
  map f (seq a len) = map (fun k => f (a + k)%nat) (seq 0 len).
Proof.
  revert a f. induction len as [|len IH]; intros a f; [reflexivity|].
  cbn [seq map]. rewrite Nat.add_0_r. f_equal.
  rewrite (IH (S a) f), (IH 1%nat (fun k => f (a + k)%nat)).
  apply map_ext. intros k. f_equal. lia.
Qed.

Lemma range_from_app (start : Z) (a b : nat) :
  range_from start (a + b) =
  range_from start a ++ range_from (start + Z.of_nat a) b.
Proof.
  unfold range_from. rewrite seq_app, map_app. f_equal.
  rewrite map_seq_from. apply map_ext. intros k. lia.
Qed.

Lemma skipn_range_from (start : Z) (k len : nat) :
  skipn k (range_from start (k + len)) = range_from (start + Z.of_nat k) len.
Proof.
  rewrite range_from_app, skipn_app, length_range_from, Nat.sub_diag.
  rewrite skipn_all2 by (rewrite length_range_from; lia). reflexivity.
Qed.

Lemma firstn_range_from (start : Z) (k len : nat) :
  firstn k (range_from start (k + len)) = range_from start k.
Proof.
  rewrite range_from_app, firstn_app, length_range_from, Nat.sub_diag.
  rewrite firstn_all2 by (rewrite length_range_from; lia).
  cbn [firstn]. apply app_nil_r.
Qed.

(** X5. A larger timestep query ends with the smaller one: when
    [retrieve_timesteps(n + k, ...)] and [retrieve_timesteps(n, ...)] both
    succeed on the same memory with the same horizons, dropping the first
    [k] slots of the larger result gives the smaller result. *)
Theorem retrieve_timesteps_suffix {V : Type}
    (m : Memory V) (n k ph fh : Z) (larger smaller : list Z) :
  memory_ok m -> 0 <= k ->
  timestep_query_ok n ph fh -> timestep_query_ok (n + k) ph fh ->
  eval (tf_retrieve_timesteps (n + k) ph fh) m = Ok larger ->
  eval (tf_retrieve_timesteps n ph fh) m = Ok smaller ->
  skipn (Z.to_nat k) larger = smaller.
Proof.
  intros Hm Hk Hq Hqk.
  rewrite (tf_retrieve_timesteps_closed m _ ph fh Hm Hqk).
  rewrite (tf_retrieve_timesteps_closed m _ ph fh Hm Hq).
  destruct (1 <=? _); [|discriminate]. intros [= <-] [= <-].
  unfold logical_timesteps. rewrite skipn_map. f_equal.
  replace (Z.to_nat (n + k)) with (Z.to_nat k + Z.to_nat n)%nat
    by (int64_bounds; lia).
  rewrite skipn_range_from. f_equal. lia.
Qed.

Lemma retrieve_timesteps_suffix_witness :
  memory_ok (memory_of 8 20 0 [0]) /\ 0 <= 2 /\
  timestep_query_ok 3 0 1 /\ timestep_query_ok (3 + 2) 0 1 /\
  eval (tf_retrieve_timesteps (3 + 2) 0 1) (memory_of 8 20 0 [0]) = Ok [6; 7; 0; 1; 2] /\
  eval (tf_retrieve_timesteps 3 0 1) (memory_of 8 20 0 [0]) = Ok [0; 1; 2] /\
  skipn (Z.to_nat 2) [6; 7; 0; 1; 2] = [0; 1; 2].
Proof.
  assert (Hm : memory_ok (memory_of 8 20 0 [0])) by (int64_bounds; simpl; lia).
  assert (Hk : 0 <= 2) by lia.
  assert (Hq : timestep_query_ok 3 0 1) by (int64_bounds; lia).
  assert (Hqk : timestep_query_ok (3 + 2) 0 1) by (int64_bounds; lia).
  assert (H1 : eval (tf_retrieve_timesteps (3 + 2) 0 1) (memory_of 8 20 0 [0])
               = Ok [6; 7; 0; 1; 2]) by reflexivity.
  assert (H2 : eval (tf_retrieve_timesteps 3 0 1) (memory_of 8 20 0 [0])
               = Ok [0; 1; 2]) by reflexivity.
  repeat (split; [assumption|]).
  exact (retrieve_timesteps_suffix (memory_of 8 20 0 [0]) 3 2 0 1
           [6; 7; 0; 1; 2] [0; 1; 2] Hm Hk Hq Hqk H1 H2).
Defined.

(** X6. The future horizon only drops the newest timesteps: when
    [retrieve_timesteps(n, ph, fh)] and [retrieve_timesteps(n + fh, ph', 0)]
    both succeed on the same memory, the first [n] slots of the second
    result are the first result. *)
Theorem retrieve_timesteps_future_horizon_shift {V : Type}
    (m : Memory V) (n ph ph' fh : Z) (shifted plain : list Z) :
  memory_ok m ->
  timestep_query_ok n ph fh -> timestep_query_ok (n + fh) ph' 0 ->
  eval (tf_retrieve_timesteps n ph fh) m = Ok shifted ->
  eval (tf_retrieve_timesteps (n + fh) ph' 0) m = Ok plain ->
  firstn (Z.to_nat n) plain = shifted.
Proof.
  intros Hm Hq Hq0.
  rewrite (tf_retrieve_timesteps_closed m _ ph fh Hm Hq).
  rewrite (tf_retrieve_timesteps_closed m _ ph' 0 Hm Hq0).
  destruct (1 <=? _); [|discriminate]. intros [= <-].
  destruct (1 <=? _); [|discriminate]. intros [= <-].
  unfold logical_timesteps. rewrite firstn_map. f_equal.
  replace (Z.to_nat (n + fh)) with (Z.to_nat n + Z.to_nat fh)%nat
    by (int64_bounds; lia).
  rewrite firstn_range_from. f_equal. lia.
Qed.

Lemma retrieve_timesteps_future_horizon_shift_witness :
  memory_ok (memory_of 8 20 0 [0]) /\
  timestep_query_ok 3 1 2 /\ timestep_query_ok (3 + 2) 0 0 /\
  eval (tf_retrieve_timesteps 3 1 2) (memory_of 8 20 0 [0]) = Ok [7; 0; 1] /\
  eval (tf_retrieve_timesteps (3 + 2) 0 0) (memory_of 8 20 0 [0])
    = Ok [7; 0; 1; 2; 3] /\
  firstn (Z.to_nat 3) [7; 0; 1; 2; 3] = [7; 0; 1].
Proof.
  assert (Hm : memory_ok (memory_of 8 20 0 [0])) by (int64_bounds; simpl; lia).
  assert (Hq : timestep_query_ok 3 1 2) by (int64_bounds; lia).
  assert (Hq0 : timestep_query_ok (3 + 2) 0 0) by (int64_bounds; lia).
  assert (H1 : eval (tf_retrieve_timesteps 3 1 2) (memory_of 8 20 0 [0])
               = Ok [7; 0; 1]) by reflexivity.
  assert (H2 : eval (tf_retrieve_timesteps (3 + 2) 0 0) (memory_of 8 20 0 [0])
               = Ok [7; 0; 1; 2; 3]) by reflexivity.
  repeat (split; [assumption|]).
  exact (retrieve_timesteps_future_horizon_shift (memory_of 8 20 0 [0]) 3 1 0 2
           [7; 0; 1] [7; 0; 1; 2; 3] Hm Hq Hq0 H1 H2).
Defined.

(** X7. The slots of [retrieve_timesteps] depend on the write cursor only
    modulo the capacity: two memories of the same capacity whose cursors
    differ by a multiple of it return the same slots for the same query,
    when both calls succeed. *)
Theorem retrieve_timesteps_cursor_periodic {V : Type}
    (m m' : Memory V) (j n ph fh : Z) (slots slots' : list Z) :
  memory_ok m -> memory_ok m' -> timestep_query_ok n ph fh ->
  capacity m' = capacity m ->
  buffer_index m' = buffer_index m + j * capacity m ->
  eval (tf_retrieve_timesteps n ph fh) m = Ok slots ->
  eval (tf_retrieve_timesteps n ph fh) m' = Ok slots' ->
  slots' = slots.
Proof.
  intros Hm Hm' Hq Hcap Hbi.
  rewrite (tf_retrieve_timesteps_closed m _ ph fh Hm Hq).
  rewrite (tf_retrieve_timesteps_closed m' _ ph fh Hm' Hq).
  destruct (1 <=? _); [|discriminate]. intros [= <-].
  destruct (1 <=? _); [|discriminate]. intros [= <-].
  unfold logical_timesteps, range_from. rewrite Hcap, Hbi, !map_map.
  apply map_ext. intros k. unfold physical_slot.
  replace (buffer_index m + j * capacity m - n - fh + Z.of_nat k)
    with (buffer_index m - n - fh + Z.of_nat k + j * capacity m) by lia.
  apply Z_mod_plus_full.
Qed.

Lemma retrieve_timesteps_cursor_periodic_witness :
  eval (tf_retrieve_timesteps 3 0 1) (memory_of 8 12 0 [0]) = Ok [0; 1; 2] /\
  eval (tf_retrieve_timesteps 3 0 1) (memory_of 8 28 0 [0]) = Ok [0; 1; 2] /\
  [0; 1; 2] = [0; 1; 2].
Proof.
  assert (Hm : memory_ok (memory_of 8 12 0 [0])) by (int64_bounds; simpl; lia).
  assert (Hm' : memory_ok (memory_of 8 28 0 [0])) by (int64_bounds; simpl; lia).
  assert (Hq : timestep_query_ok 3 0 1) by (int64_bounds; lia).
  assert (H1 : eval (tf_retrieve_timesteps 3 0 1) (memory_of 8 12 0 [0])
               = Ok [0; 1; 2]) by reflexivity.
  assert (H2 : eval (tf_retrieve_timesteps 3 0 1) (memory_of 8 28 0 [0])
               = Ok [0; 1; 2]) by reflexivity.
  split; [exact H1|]. split; [exact H2|].
  exact (retrieve_timesteps_cursor_periodic (memory_of 8 12 0 [0])
           (memory_of 8 28 0 [0]) 2 3 0 1 [0; 1; 2] [0; 1; 2]
           Hm Hm' Hq eq_refl eq_refl H1 H2).
Defined.

(** X8. [retrieve_timesteps] with [n <= 0]: the availability gate is
    checked first and its failure is what the call reports; when the gate
    passes, [n = 0] gives the empty sequence and [n < 0] is refused by
    [tf.range], whose start then lies above its limit. *)
Theorem retrieve_timesteps_nonpositive_n {V : Type} (m : Memory V) (n ph fh : Z) :
  memory_ok m ->
  0 <= ph -> 0 <= fh -> ph + fh <= Int64.max_value ->
  n <= 0 -> buffer_index m - n <= Int64.max_value ->
  eval (tf_retrieve_timesteps n ph fh) m =
  if Z.min (buffer_index m) (capacity m) - ph - fh <? 1
  then Err AssertGreaterEqualFailed
  else if n =? 0 then Ok [] else Err RangeStartAboveLimit.
Proof.
  intros Hm Hph Hfh Hsum Hn Hroom.
  unfold eval. rewrite tf_retrieve_timesteps_run. cbn [fst].
  rewrite tf_minimum_min.
  rewrite (int64_sub_exact (Z.min _ _) ph) by (int64_bounds; lia).
  rewrite (int64_sub_exact _ fh) by (int64_bounds; lia).
  destruct (Z.leb_spec 1 (Z.min (buffer_index m) (capacity m) - ph - fh)),
    (Z.ltb_spec (Z.min (buffer_index m) (capacity m) - ph - fh) 1);
    try lia; [|reflexivity].
  rewrite int64_sub_exact by (int64_bounds; lia).
  unfold tf_range.
  destruct (Z.eqb_spec n 0) as [->|Hn0].
  - rewrite Z.sub_0_r, Z.ltb_irrefl, Z.sub_diag. reflexivity.
  - destruct (Z.ltb_spec (buffer_index m) (buffer_index m - n)); [reflexivity|lia].
Qed.

Lemma retrieve_timesteps_nonpositive_n_witness :
  memory_ok (memory_of 8 20 0 [0]) /\
  eval (tf_retrieve_timesteps (-2) 0 1) (memory_of 8 20 0 [0])
    = Err RangeStartAboveLimit.
Proof.
  assert (Hm : memory_ok (memory_of 8 20 0 [0])) by (int64_bounds; simpl; lia).
  split; [exact Hm|].
  apply (retrieve_timesteps_nonpositive_n (memory_of 8 20 0 [0]) (-2) 0 1 Hm);
    unfold Int64.max_value; simpl; lia.
Defined.

(** X9. When the terminal index table holds buffer slots (entries in
    [[0, capacity)]), [retrieve_episodes] walks the ring from the slot
    after the older terminal to the newer terminal: without modulo effect
    when the older entry is not above the newer one, and otherwise up to
    the last slot of the buffer and on from slot 0. *)
Theorem retrieve_episodes_slot_valued_table {V : Type}
    (m : Memory V) (n t_prev t_last : Z) :
  episode_query_ok m n t_prev t_last ->
  0 <= t_prev < capacity m -> 0 <= t_last < capacity m ->
  eval (tf_retrieve_episodes n) m =
  Ok (if t_last <? t_prev
      then range_from (t_prev + 1) (Z.to_nat (capacity m - t_prev - 1))
           ++ range_from 0 (Z.to_nat (t_last + 1))
      else range_from (t_prev + 1) (Z.to_nat (t_last - t_prev))).
Proof.
  intros Hq Hp Hl.
  assert (Hc : 0 < capacity m) by lia.
  rewrite (tf_retrieve_episodes_closed m n t_prev t_last Hc Hq).
  cbv zeta. unfold corrected_limit.
  destruct (Z.ltb_spec (t_last + 1) (t_prev + 1)), (Z.ltb_spec t_last t_prev);
    try lia.
  - destruct (Z.ltb_spec (t_last + 1 + capacity m) (t_prev + 1)); [lia|].
    f_equal.
    replace (Z.to_nat (t_last + 1 + capacity m - (t_prev + 1)))
      with (Z.to_nat (capacity m - t_prev - 1) + Z.to_nat (t_last + 1))%nat by lia.
    rewrite range_from_app, map_app. f_equal.
    + rewrite <- (map_id (range_from (t_prev + 1) _)) at 2.
      apply map_ext_in. intros x Hx. apply In_range_from in Hx.
      unfold physical_slot. apply Z.mod_small. lia.
    + unfold range_from. rewrite map_map. apply map_ext_in.
      intros k Hk. apply in_seq in Hk. unfold physical_slot.
      rewrite Z2Nat.id by lia.
      replace (t_prev + 1 + (capacity m - t_prev - 1) + Z.of_nat k)
        with (Z.of_nat k + 1 * capacity m) by lia.
      rewrite Z_mod_plus_full. apply Z.mod_small. lia.
  - destruct (Z.ltb_spec (t_last + 1) (t_prev + 1)); [lia|].
    f_equal.
    replace (t_last + 1 - (t_prev + 1)) with (t_last - t_prev) by lia.
    rewrite <- (map_id (range_from (t_prev + 1) _)) at 2.
    apply map_ext_in. intros x Hx. apply In_range_from in Hx.
    unfold physical_slot. apply Z.mod_small. lia.
Qed.

Lemma retrieve_episodes_slot_valued_table_witness :
  episode_query_ok (memory_of 8 3 2 [7; 5; 2]) 1 5 2 /\
  eval (tf_retrieve_episodes 1) (memory_of 8 3 2 [7; 5; 2]) = Ok [6; 7; 0; 1; 2].
Proof.
  assert (Hq : episode_query_ok (memory_of 8 3 2 [7; 5; 2]) 1 5 2).
  { unfold episode_query_ok. int64_bounds. simpl.
    repeat split; try reflexivity; lia. }
  split; [exact Hq|].
  apply (retrieve_episodes_slot_valued_table (memory_of 8 3 2 [7; 5; 2]) 1 5 2 Hq);
    simpl; lia.
Defined.

(** X10. Asking for one more episode prepends exactly that episode's
    timesteps: with table entries in order ([t_prev <= t_mid <= t_last]
    at positions [episode_count - n - 1], [episode_count - n] and
    [episode_count]), the result of [retrieve_episodes(n + 1)] is the
    slots of the logical range [[t_prev + 1, t_mid + 1)] followed by the
    result of [retrieve_episodes(n)]. *)
Theorem retrieve_episodes_one_more {V : Type}
    (m : Memory V) (n t_prev t_mid t_last : Z) (recent : list Z) :
  0 < capacity m ->
  episode_query_ok m n t_mid t_last ->
  episode_query_ok m (n + 1) t_prev t_last ->
  t_prev <= t_mid <= t_last ->
  eval (tf_retrieve_episodes n) m = Ok recent ->
  eval (tf_retrieve_episodes (n + 1)) m =
  Ok (map (physical_slot (capacity m))
          (range_from (t_prev + 1) (Z.to_nat (t_mid - t_prev)))
      ++ recent).
Proof.
  intros Hc Hq Hq1 Hord.
  rewrite (tf_retrieve_episodes_closed m n t_mid t_last Hc Hq).
  rewrite (tf_retrieve_episodes_closed m (n + 1) t_prev t_last Hc Hq1).
  cbv zeta. unfold corrected_limit.
  destruct (Z.ltb_spec (t_last + 1) (t_mid + 1)); [lia|].
  destruct (Z.ltb_spec (t_last + 1) (t_mid + 1)); [lia|].
  destruct (Z.ltb_spec (t_last + 1) (t_prev + 1)); [lia|].
  destruct (Z.ltb_spec (t_last + 1) (t_prev + 1)); [lia|].
  intros [= <-]. f_equal. rewrite <- map_app. f_equal.
  replace (Z.to_nat (t_last + 1 - (t_prev + 1)))
    with (Z.to_nat (t_mid - t_prev) + Z.to_nat (t_last + 1 - (t_mid + 1)))%nat
    by lia.
  rewrite range_from_app. do 2 f_equal. lia.
Qed.

Lemma retrieve_episodes_one_more_witness :
  episode_query_ok (memory_of 8 15 3 [0; 4; 9; 15]) 1 9 15 /\
  episode_query_ok (memory_of 8 15 3 [0; 4; 9; 15]) (1 + 1) 4 15 /\
  eval (tf_retrieve_episodes 1) (memory_of 8 15 3 [0; 4; 9; 15])
    = Ok [2; 3; 4; 5; 6; 7] /\
  eval (tf_retrieve_episodes (1 + 1)) (memory_of 8 15 3 [0; 4; 9; 15])
    = Ok ([5; 6; 7; 0; 1] ++ [2; 3; 4; 5; 6; 7]).
Proof.
  assert (Hq : episode_query_ok (memory_of 8 15 3 [0; 4; 9; 15]) 1 9 15).
  { unfold episode_query_ok. int64_bounds. simpl.
    repeat split; try reflexivity; lia. }
  assert (Hq1 : episode_query_ok (memory_of 8 15 3 [0; 4; 9; 15]) (1 + 1) 4 15).
  { unfold episode_query_ok. int64_bounds. simpl.
    repeat split; try reflexivity; lia. }
  assert (He : eval (tf_retrieve_episodes 1) (memory_of 8 15 3 [0; 4; 9; 15])
               = Ok [2; 3; 4; 5; 6; 7]) by reflexivity.
  split; [exact Hq|]. split; [exact Hq1|]. split; [exact He|].
  exact (retrieve_episodes_one_more (memory_of 8 15 3 [0; 4; 9; 15]) 1 4 9 15
           [2; 3; 4; 5; 6; 7] eq_refl Hq Hq1 ltac:(lia) He).
Defined.

Lemma tf_getitem_from_end (t : list Z) (index v : Z) :
  index < 0 -> 0 <= Z.of_nat (length t) + index ->
  nth_error t (Z.to_nat (Z.of_nat (length t) + index)) = Some v ->
  tf_getitem t index = Ok v.
Proof.
  intros Hneg Hfwd Hnth. unfold tf_getitem.
  destruct (Z.ltb_spec index 0); [|lia].
  destruct (Z.ltb_spec (Z.of_nat (length t) + index) 0),
    (Z.leb_spec (Z.of_nat (length t)) (Z.of_nat (length t) + index));
    simpl; try lia.
  rewrite Hnth. reflexivity.
Qed.

Lemma tf_getitem_outside (t : list Z) (index : Z) :
  Z.of_nat (length t) <= index \/ index < - Z.of_nat (length t) ->
  tf_getitem t index = Err SliceIndexOutOfBounds.
Proof.
  intros Hout. unfold tf_getitem.
  destruct (Z.ltb_spec index 0).
  - destruct (Z.ltb_spec (Z.of_nat (length t) + index) 0); [reflexivity|lia].
  - destruct (Z.ltb_spec index 0); [lia|].
    destruct (Z.leb_spec (Z.of_nat (length t)) index); [reflexivity|lia].
Qed.

Lemma tf_getitem_error (t : list Z) (index : Z) (e : tf_error) :
  tf_getitem t index = Err e -> e = SliceIndexOutOfBounds.
Proof.
  unfold tf_getitem. destruct (_ || _); [congruence|].
  destruct (nth_error _ _); congruence.
Qed.

(** X11. Neither retriever looks at more of the memory than it names:
    [retrieve_timesteps] gives the same result on two memories that agree
    on capacity and write cursor, and [retrieve_episodes] gives the same
    result on two memories that agree on capacity, episode count and
    terminal index table, whatever their write cursors and records are. *)
Theorem retrievers_read_sets {V V' : Type}
    (m : Memory V) (m' : Memory V') (n ph fh : Z) :
  capacity m = capacity m' ->
  (buffer_index m = buffer_index m' ->
   eval (tf_retrieve_timesteps n ph fh) m = eval (tf_retrieve_timesteps n ph fh) m') /\
  (episode_count m = episode_count m' ->
   terminal_indices m = terminal_indices m' ->
   eval (tf_retrieve_episodes n) m = eval (tf_retrieve_episodes n) m').
Proof.
  intros Hcap. unfold eval. split.
  - intros Hbi. rewrite !tf_retrieve_timesteps_run. cbn [fst].
    rewrite Hcap, Hbi. reflexivity.
  - intros Hec Hti. rewrite !tf_retrieve_episodes_run. cbn [fst].
    rewrite Hcap, Hec, Hti. reflexivity.
Qed.

Lemma retrievers_read_sets_witness :
  eval (tf_retrieve_episodes 1) (memory_of 8 15 3 [0; 4; 9; 15]) =
  eval (tf_retrieve_episodes 1) (mkMemory 8 [true; false] 99 3 [0; 4; 9; 15]).
Proof.
  exact (proj2 (retrievers_read_sets (memory_of 8 15 3 [0; 4; 9; 15])
                  (mkMemory 8 [true; false] 99 3 [0; 4; 9; 15]) 1 0 0 eq_refl)
               eq_refl eq_refl).
Defined.

(** X12. The terminal index table is indexed the way a tensor is.  With
    [episode_count >= 1]: when [episode_count] is not a position of the
    table, or [episode_count - n] lies more than the table's length below
    zero, [retrieve_episodes(n)] fails with a slice index error; and when
    [n > episode_count] with [episode_count - n] at most the table's
    length below zero, the older terminal is read from the table's end,
    at position [length + episode_count - n]. *)
Theorem retrieve_episodes_table_indexing {V : Type}
    (m : Memory V) (n : Z) :
  1 <= episode_count m <= Int64.max_value -> 0 < n <= Int64.max_value ->
  let len := Z.of_nat (length (terminal_indices m)) in
  (len <= episode_count m \/ episode_count m - n < - len ->
   eval (tf_retrieve_episodes n) m = Err SliceIndexOutOfBounds) /\
  (forall t_prev t_last,
     0 < capacity m ->
     episode_count m < n -> 0 <= len + episode_count m - n ->
     nth_error (terminal_indices m) (Z.to_nat (len + episode_count m - n))
       = Some t_prev ->
     nth_error (terminal_indices m) (Z.to_nat (episode_count m)) = Some t_last ->
     Int64.min_value <= t_prev < Int64.max_value ->
     Int64.min_value <= t_last -> t_last + capacity m < Int64.max_value ->
     eval (tf_retrieve_episodes n) m =
     let start := t_prev + 1 in
     let limit := corrected_limit (capacity m) start (t_last + 1) in
     if limit <? start then Err RangeStartAboveLimit
     else Ok (map (physical_slot (capacity m))
                (range_from start (Z.to_nat (limit - start))))).
Proof.
  intros Hec Hn len. unfold eval. rewrite tf_retrieve_episodes_run. cbn [fst].
  destruct (Z.leb_spec 1 (episode_count m)); [|lia].
  rewrite int64_sub_exact by (int64_bounds; lia).
  split.
  - intros [Hhigh|Hlow].
    + destruct (tf_getitem _ (episode_count m - n)) as [t_start|e] eqn:Hfirst.
      * cbn [result_bind]. rewrite tf_getitem_outside by (left; exact Hhigh).
        reflexivity.
      * cbn [result_bind]. f_equal. exact (tf_getitem_error _ _ _ Hfirst).
    + rewrite tf_getitem_outside by (right; exact Hlow). reflexivity.
  - intros t_prev t_last Hc Hgt Hfwd Hprev Hlast Hp Hl Hroom.
    rewrite (tf_getitem_from_end _ _ t_prev)
      by (try lia; rewrite <- Hprev; f_equal; lia).
    rewrite (tf_getitem_nth _ _ t_last) by (assumption || lia).
    cbn [result_bind]. cbv zeta.
    rewrite !(int64_add_exact _ 1) by (int64_bounds; lia).
    unfold tf_where, corrected_limit.
    destruct (Z.ltb_spec (t_last + 1) (t_prev + 1)).
    + rewrite int64_add_exact by (int64_bounds; lia).
      unfold tf_range. destruct (_ <? _); [reflexivity|].
      cbn [result_bind]. apply tf_math_mod_map. exact Hc.
    + rewrite int64_add_exact by (int64_bounds; lia). rewrite Z.add_0_r.
      unfold tf_range. destruct (_ <? _); [reflexivity|].
      cbn [result_bind]. apply tf_math_mod_map. exact Hc.
Qed.

Lemma retrieve_episodes_table_indexing_witness :
  eval (tf_retrieve_episodes 1) (memory_of 8 5 3 [0; 4; 9]) = Err SliceIndexOutOfBounds /\
  eval (tf_retrieve_episodes 2) (memory_of 8 5 1 [0; 4; 0]) = Ok [1; 2; 3; 4].
Proof.
  split.
  - apply (proj1 (retrieve_episodes_table_indexing (memory_of 8 5 3 [0; 4; 9]) 1
                    ltac:(unfold Int64.max_value; simpl; lia)
                    ltac:(unfold Int64.max_value; lia))).
    left. simpl. lia.
  - apply (proj2 (retrieve_episodes_table_indexing (memory_of 8 5 1 [0; 4; 0]) 2
                    ltac:(unfold Int64.max_value; simpl; lia)
                    ltac:(unfold Int64.max_value; lia)) 0 4);
      unfold Int64.max_value, Int64.min_value; simpl; try reflexivity; lia.
Defined.
